(** * gen/logger.cpp: the indentation-scoped console logger

    A shallow embedding of [namespace Logger] from [src/gen/logger.cpp].
    The three file-local globals ([_enabled], [indent_str] and the text
    written so far to the C standard output) are threaded explicitly as a
    [world]; a call either returns the next world or stops the process
    with a [fault].

    Conventions of the model:
    - [std::string] is [string]; appending never fails (memory exhaustion
      is not modelled), everything else [resize] does is written out;
    - [size_t] is 64 bits wide, [int] is 32 bits wide;
    - [assert] is the checking macro of <cassert> (no NDEBUG);
    - [printf]/[vprintf] are modelled on the plain directives
      %d %i %c %s %%; any other directive, or an argument that does not
      fit its directive, is a [UndefinedBehaviour] fault;
    - stdio and iostream writes reach the same, synchronised, standard
      output; write errors of the operating system are not modelled. *)

From Stdlib Require Import ZArith List String Ascii Bool Lia DecimalString.
Import ListNotations.
Local Open Scope string_scope.
Local Open Scope Z_scope.

(** ** Outcome of a call: normal return or the fault that ended it *)

Inductive fault : Type :=
| AssertionFailed      (* assert(...) failed: abort() *)
| LengthError          (* std::length_error left uncaught *)
| UndefinedBehaviour.  (* printf contract broken by the caller *)

Inductive outcome (A : Type) : Type :=
| Ok (a : A)
| Fault (f : fault).

Arguments Ok {A} a.
Arguments Fault {A} f.

Definition bind {A B : Type} (m : outcome A) (k : A -> outcome B) : outcome B :=
  match m with
  | Ok a => k a
  | Fault f => Fault f
  end.

Notation "x <- m ;; k" := (bind m (fun x => k))
  (at level 61, m at next level, right associativity).
Notation "m ;;; k" := (bind m (fun _ => k))
  (at level 61, right associativity).

(** ** The part of <string>, <cassert> and <cstdio> the logger uses *)

Definition NUL : ascii := Ascii.zero.

Definition SIZE_MAX : Z := 2 ^ 64 - 1.
Definition INT_MIN : Z := - 2 ^ 31.
Definition INT_MAX : Z := 2 ^ 31 - 1.

(** [std::string::max_size()]; libstdc++ on an LP64 target. *)
Definition max_size : Z := 2 ^ 62 - 1.

Definition size (s : string) : Z := Z.of_nat (String.length s).

Definition empty (s : string) : bool :=
  match s with
  | EmptyString => true
  | String _ _ => false
  end.

(** Subtraction of two [size_t] values, with its wrap-around. *)
Definition size_t_sub (a b : Z) : Z :=
  if b <=? a then a - b else a - b + (SIZE_MAX + 1).

Fixpoint fill (n : nat) (c : ascii) : string :=
  match n with
  | O => EmptyString
  | S n' => String c (fill n' c)
  end.

(** [s.resize(n)]: truncates to the first [n] characters, or grows with
    NUL characters, throwing [std::length_error] past [max_size()]. *)
Definition resize (n : Z) (s : string) : outcome string :=
  if n <=? size s then Ok (substring 0 (Z.to_nat n) s)
  else if max_size <? n then Fault LengthError
  else Ok (s ++ fill (Z.to_nat (n - size s)) NUL).

Definition assert (b : bool) : outcome unit :=
  if b then Ok tt else Fault AssertionFailed.

(** The string literal of one line feed. *)
Definition LF : string := String "010" EmptyString.

(** The variadic arguments of a printf-style call. *)
Inductive va_arg : Type :=
| va_int (z : Z)
| va_str (s : string).

Definition va_list : Type := list va_arg.

(** The characters of a C string: those before the first NUL. *)
Fixpoint c_chars (s : string) : string :=
  match s with
  | EmptyString => EmptyString
  | String c s' => if Ascii.eqb c NUL then EmptyString else String c (c_chars s')
  end.

Definition decimal (z : Z) : string := NilZero.string_of_int (Z.to_int z).

(** One conversion: the directive character and the arguments left give
    the converted text and the arguments left afterwards. *)
Definition convert (d : ascii) (va : va_list) : option (string * va_list) :=
  if Ascii.eqb d "%" then Some ("%", va)
  else if Ascii.eqb d "d" || Ascii.eqb d "i" then
    match va with
    | va_int z :: va' =>
        if (INT_MIN <=? z) && (z <=? INT_MAX) then Some (decimal z, va') else None
    | _ => None
    end
  else if Ascii.eqb d "c" then
    match va with
    | va_int z :: va' =>
        if (INT_MIN <=? z) && (z <=? INT_MAX)
        then Some (String (ascii_of_N (Z.to_N (z mod 256))) EmptyString, va')
        else None
    | _ => None
    end
  else if Ascii.eqb d "s" then
    match va with
    | va_str s :: va' => Some (c_chars s, va')
    | _ => None
    end
  else None.

(** The text a printf-family function produces from [fmt] and [va];
    [None] where the C standard leaves the call undefined (or the
    directive is outside the modelled ones).  Surplus arguments are
    ignored, as in C. *)
Fixpoint vformat (fmt : string) (va : va_list) : option string :=
  match fmt with
  | EmptyString => Some EmptyString
  | String c rest =>
      if Ascii.eqb c NUL then Some EmptyString
      else if Ascii.eqb c "%" then
        match rest with
        | EmptyString => None
        | String d rest' =>
            match convert d va with
            | Some (text, va') =>
                match vformat rest' va' with
                | Some out => Some (text ++ out)
                | None => None
                end
            | None => None
            end
        end
      else
        match vformat rest va with
        | Some out => Some (String c out)
        | None => None
        end
  end.

(** ** namespace Logger *)

Module Logger.

(** The process-wide state: the two statics of the namespace and the
    characters written to standard output so far. *)
Record world : Type := mkWorld {
  _enabled : bool;
  indent_str : string;
  stdout : string
}.

(** State at process start: [_enabled = false], [indent_str] empty,
    nothing written. *)
Definition initial : world :=
  {| _enabled := false; indent_str := ""; stdout := "" |}.

Definition set_enabled (b : bool) (w : world) : world :=
  {| _enabled := b; indent_str := indent_str w; stdout := stdout w |}.

Definition set_indent_str (s : string) (w : world) : world :=
  {| _enabled := _enabled w; indent_str := s; stdout := stdout w |}.

(** Appends [text] to standard output. *)
Definition write_stdout (text : string) (w : world) : world :=
  {| _enabled := _enabled w; indent_str := indent_str w;
     stdout := stdout w ++ text |}.

Definition vprintf (fmt : string) (va : va_list) (w : world) : outcome world :=
  match vformat fmt va with
  | Some text => Ok (write_stdout text w)
  | None => Fault UndefinedBehaviour
  end.

Definition printf (fmt : string) (va : va_list) (w : world) : outcome world :=
  vprintf fmt va w.

(** The two streams the accessor can hand out: [std::cout], and
    [null_out], the [std::ofstream] opened on /dev/null. *)
Inductive ostream : Type :=
| std_cout
| null_out.

(** [os << text]: reaches standard output through [std_cout]; what goes
    to [null_out] is dropped. *)
Definition insert (os : ostream) (text : string) (w : world) : world :=
  match os with
  | std_cout => write_stdout text w
  | null_out => w
  end.

Definition indent (w : world) : world :=
  if _enabled w then set_indent_str (indent_str w ++ "* ") w
  else w.

Definition undent (w : world) : outcome world :=
  if _enabled w then
    assert (negb (empty (indent_str w))) ;;;
    s <- resize (size_t_sub (size (indent_str w)) 2) (indent_str w) ;;
    Ok (set_indent_str s w)
  else Ok w.

Definition cout (w : world) : ostream * world :=
  if _enabled w then (std_cout, insert std_cout (indent_str w) w)
  else (null_out, w).

Definition println (fmt : string) (va : va_list) (w : world) : outcome world :=
  if _enabled w then
    w1 <- printf (indent_str w) [] w ;;
    w2 <- vprintf fmt va w1 ;;
    printf LF [] w2
  else Ok w.

Definition print (fmt : string) (va : va_list) (w : world) : outcome world :=
  if _enabled w then
    w1 <- printf (indent_str w) [] w ;;
    vprintf fmt va w1
  else Ok w.

Definition enable (w : world) : world := set_enabled true w.

Definition disable (w : world) : world := set_enabled false w.

Definition enabled (w : world) : bool := _enabled w.

Definition attention (fmt : string) (va : va_list) (w : world) : outcome world :=
  w1 <- printf "***ATTENTION*** " [] w ;;
  w2 <- vprintf fmt va w1 ;;
  printf LF [] w2.

(** ** Sequences of calls *)

(** One call of the public interface.  [call_cout texts] is
    [cout() << t1 << ... << tn]. *)
Inductive call : Type :=
| call_indent
| call_undent
| call_cout (texts : list string)
| call_println (fmt : string) (va : va_list)
| call_print (fmt : string) (va : va_list)
| call_enable
| call_disable
| call_enabled
| call_attention (fmt : string) (va : va_list).

(** Successive insertions on one stream handle. *)
Definition inserts (os : ostream) (texts : list string) (w : world) : world :=
  fold_left (fun w' text => insert os text w') texts w.

Definition exec (c : call) (w : world) : outcome world :=
  match c with
  | call_indent => Ok (indent w)
  | call_undent => undent w
  | call_cout texts => let (os, w') := cout w in Ok (inserts os texts w')
  | call_println fmt va => println fmt va w
  | call_print fmt va => print fmt va w
  | call_enable => Ok (enable w)
  | call_disable => Ok (disable w)
  | call_enabled => Ok w
  | call_attention fmt va => attention fmt va w
  end.

Fixpoint run (cs : list call) (w : world) : outcome world :=
  match cs with
  | [] => Ok w
  | c :: cs' => w' <- exec c w ;; run cs' w'
  end.

(** The worlds a process can be in: those some sequence of calls, none
    of which faulted, leads to from process start. *)
Definition reachable (w : world) : Prop :=
  exists cs, run cs initial = Ok w.

(** [k] indentation tokens. *)
Fixpoint tokens (k : nat) : string :=
  match k with
  | O => EmptyString
  | S k' => "* " ++ tokens k'
  end.

(** Nesting bookkeeping of a sequence of [indent()]/[undent()] calls
    entered at nesting depth [depth]: [Some k] when every [undent()] has
    an earlier [indent()] (or one of the [depth] open ones) to match, [k]
    being the number of [indent()] calls left unmatched at the end;
    [None] otherwise, and for sequences with other calls. *)
Fixpoint unmatched (cs : list call) (depth : nat) : option nat :=
  match cs with
  | [] => Some depth
  | call_indent :: cs' => unmatched cs' (S depth)
  | call_undent :: cs' =>
      match depth with
      | O => None
      | S depth' => unmatched cs' depth'
      end
  | _ :: _ => None
  end.

Definition balanced (cs : list call) : bool :=
  match unmatched cs 0 with
  | Some O => true
  | _ => false
  end.

(** The prefix is a run of tokens. *)
Definition tokens_only (w : world) : Prop := exists k, indent_str w = tokens k.

Definition is_toggle (c : call) : bool :=
  match c with
  | call_enable | call_disable => true
  | _ => false
  end.

(** ** Vocabulary for properties of whole call sequences *)

(** What the last [enable()]/[disable()] of a sequence set, if there is
    one. *)
Fixpoint last_toggle (cs : list call) : option bool :=
  match cs with
  | [] => None
  | c :: cs' =>
      match last_toggle cs' with
      | Some b => Some b
      | None =>
          match c with
          | call_enable => Some true
          | call_disable => Some false
          | _ => None
          end
      end
  end.

(** The logger seen as a flag and a depth counter: [indent()] and
    [undent()] count only while the flag is set, and [undent()] at depth
    0 with the flag set has no successor ([None]). *)
Fixpoint nesting (cs : list call) (flag : bool) (depth : nat) : option (bool * nat) :=
  match cs with
  | [] => Some (flag, depth)
  | call_indent :: cs' => nesting cs' flag (if flag then S depth else depth)
  | call_undent :: cs' =>
      if flag then
        match depth with
        | O => None
        | S depth' => nesting cs' flag depth'
        end
      else nesting cs' flag depth
  | call_enable :: cs' => nesting cs' true depth
  | call_disable :: cs' => nesting cs' false depth
  | _ :: cs' => nesting cs' flag depth
  end.

(** A format without directive: no '%' and no NUL. *)
Fixpoint plain (s : string) : bool :=
  match s with
  | EmptyString => true
  | String c s' => negb (Ascii.eqb c NUL) && negb (Ascii.eqb c "%") && plain s'
  end.

(** The texts of successive insertions, one after the other. *)
Definition joined (texts : list string) : string :=
  fold_right String.append EmptyString texts.

(** Calls that neither switch logging on nor bypass the switch. *)
Definition is_quiet (c : call) : bool :=
  match c with
  | call_enable | call_attention _ _ => false
  | _ => true
  end.

Definition is_nesting (c : call) : bool :=
  match c with
  | call_indent | call_undent => true
  | _ => false
  end.

Definition is_output (c : call) : bool :=
  match c with
  | call_cout _ | call_println _ _ | call_print _ _ | call_attention _ _ => true
  | _ => false
  end.

End Logger.

Import Logger.

(** * Strings *)

Lemma append_empty_r (s : string) : s ++ "" = s.
Proof. induction s as [|c s IH]; simpl; [reflexivity | now rewrite IH]. Qed.

Lemma append_assoc (s t u : string) : (s ++ t) ++ u = s ++ (t ++ u).
Proof. induction s as [|c s IH]; simpl; [reflexivity | now rewrite IH]. Qed.

Lemma length_append (s t : string) :
  String.length (s ++ t) = (String.length s + String.length t)%nat.
Proof. induction s as [|c s IH]; simpl; [reflexivity | now rewrite IH]. Qed.

Lemma substring_whole_prefix (s t : string) :
  substring 0 (String.length s) (s ++ t) = s.
Proof.
  induction s as [|c s IH]; simpl.
  - now destruct t.
  - now rewrite IH.
Qed.

Lemma append_cancel_empty (s t : string) : s ++ t = s -> t = "".
Proof.
  intros H. apply (f_equal String.length) in H.
  rewrite length_append in H. destruct t; [reflexivity | simpl in H; lia].
Qed.

Lemma empty_append_token (p : string) : empty (p ++ "* ") = false.
Proof. now destruct p. Qed.

Lemma tokens_snoc (k : nat) : tokens k ++ "* " = tokens (S k).
Proof.
  induction k as [|k IH]; [reflexivity |].
  change (tokens (S k)) with ("* " ++ tokens k).
  rewrite append_assoc, IH. reflexivity.
Qed.

Lemma length_tokens (k : nat) : String.length (tokens k) = (2 * k)%nat.
Proof. induction k as [|k IH]; simpl in *; lia. Qed.

Lemma empty_tokens (k : nat) : empty (tokens k) = false -> exists k', k = S k'.
Proof. destruct k; [discriminate | eauto]. Qed.

(** An indent prefix made of tokens holds no directive and no NUL:
    printf copies it as it is. *)
Lemma vformat_tokens (k : nat) (va : va_list) : vformat (tokens k) va = Some (tokens k).
Proof.
  induction k as [|k IH]; [reflexivity |].
  simpl. simpl in IH. now rewrite IH.
Qed.

(** * The operations, one at a time *)

Lemma world_eta (w : world) :
  {| _enabled := _enabled w; indent_str := indent_str w; stdout := stdout w |} = w.
Proof. now destruct w. Qed.

Lemma set_indent_str_same (w : world) : set_indent_str (indent_str w) w = w.
Proof. now destruct w. Qed.

Lemma write_stdout_empty (w : world) : write_stdout "" w = w.
Proof. destruct w; unfold write_stdout; simpl. now rewrite append_empty_r. Qed.

Lemma write_stdout_twice (s t : string) (w : world) :
  write_stdout t (write_stdout s w) = write_stdout (s ++ t) w.
Proof. unfold write_stdout; simpl. now rewrite append_assoc. Qed.

Lemma vformat_plain_LF (va : va_list) : vformat LF va = Some LF.
Proof. reflexivity. Qed.

Lemma vformat_banner (va : va_list) :
  vformat "***ATTENTION*** " va = Some "***ATTENTION*** ".
Proof. reflexivity. Qed.

(** Removing one token undoes appending it. *)
Lemma undent_token (w : world) (p : string) :
  _enabled w = true -> indent_str w = p ++ "* " ->
  undent w = Ok (set_indent_str p w).
Proof.
  intros He Hp. unfold undent. rewrite He, Hp, empty_append_token. simpl.
  unfold resize, size_t_sub, size. rewrite length_append. simpl String.length.
  replace (2 <=? Z.of_nat (String.length p + 2)) with true
    by (symmetry; apply Z.leb_le; lia).
  replace (Z.of_nat (String.length p + 2) - 2) with (Z.of_nat (String.length p)) by lia.
  replace (Z.of_nat (String.length p) <=? Z.of_nat (String.length p + 2)) with true
    by (symmetry; apply Z.leb_le; lia).
  rewrite Nat2Z.id, substring_whole_prefix. reflexivity.
Qed.

Lemma undent_indent (w : world) : _enabled w = true -> undent (indent w) = Ok w.
Proof.
  intros He. unfold indent. rewrite He.
  rewrite (undent_token _ (indent_str w)) by (simpl; auto).
  unfold set_indent_str; simpl. now rewrite world_eta.
Qed.

(** What the toggles and the printers leave alone. *)
Lemma vprintf_frame (fmt : string) (va : va_list) (w w' : world) :
  vprintf fmt va w = Ok w' ->
  _enabled w' = _enabled w /\ indent_str w' = indent_str w.
Proof.
  unfold vprintf. destruct (vformat fmt va); [|discriminate].
  intros [= <-]. now split.
Qed.

Lemma inserts_frame (os : ostream) (texts : list string) (w : world) :
  _enabled (inserts os texts w) = _enabled w /\
  indent_str (inserts os texts w) = indent_str w.
Proof.
  unfold inserts. revert w.
  induction texts as [|t texts IH]; intros w; simpl; [now split |].
  destruct (IH (insert os t w)) as [-> ->]. now destruct os.
Qed.

Lemma inserts_null_out (texts : list string) (w : world) :
  inserts null_out texts w = w.
Proof. unfold inserts. induction texts; simpl; auto. Qed.

Lemma println_frame (fmt : string) (va : va_list) (w w' : world) :
  println fmt va w = Ok w' ->
  _enabled w' = _enabled w /\ indent_str w' = indent_str w.
Proof.
  unfold println, printf. destruct (_enabled w) eqn:He.
  - destruct (vprintf (indent_str w) [] w) as [w1|] eqn:H1; [|discriminate].
    simpl. destruct (vprintf fmt va w1) as [w2|] eqn:H2; [|discriminate].
    simpl. intros H3.
    apply vprintf_frame in H1 as [? ?], H2 as [? ?], H3 as [? ?].
    split; congruence.
  - intros [= <-]. now split.
Qed.

Lemma print_frame (fmt : string) (va : va_list) (w w' : world) :
  print fmt va w = Ok w' ->
  _enabled w' = _enabled w /\ indent_str w' = indent_str w.
Proof.
  unfold print, printf. destruct (_enabled w) eqn:He.
  - destruct (vprintf (indent_str w) [] w) as [w1|] eqn:H1; [|discriminate].
    simpl. intros H2.
    apply vprintf_frame in H1 as [? ?], H2 as [? ?].
    split; congruence.
  - intros [= <-]. now split.
Qed.

Lemma attention_frame (fmt : string) (va : va_list) (w w' : world) :
  attention fmt va w = Ok w' ->
  _enabled w' = _enabled w /\ indent_str w' = indent_str w.
Proof.
  unfold attention, printf.
  destruct (vprintf "***ATTENTION*** " [] w) as [w1|] eqn:H1; [|discriminate].
  simpl. destruct (vprintf fmt va w1) as [w2|] eqn:H2; [|discriminate].
  simpl. intros H3.
  apply vprintf_frame in H1 as [? ?], H2 as [? ?], H3 as [? ?].
  split; congruence.
Qed.

(** The line [attention] writes, whatever the state. *)
Lemma attention_writes (fmt : string) (va : va_list) (msg : string) (w : world) :
  vformat fmt va = Some msg ->
  attention fmt va w = Ok (write_stdout ("***ATTENTION*** " ++ msg ++ LF) w).
Proof.
  intros Hm. unfold attention, printf, vprintf.
  rewrite vformat_banner. cbn [bind]. rewrite Hm. cbn [bind].
  rewrite vformat_plain_LF. now rewrite !write_stdout_twice.
Qed.

(** * Sequences of calls *)

Lemma run_app (cs1 cs2 : list call) (w : world) :
  run (cs1 ++ cs2)%list w = (w' <- run cs1 w ;; run cs2 w').
Proof.
  revert w. induction cs1 as [|c cs1 IH]; intros w; simpl; [reflexivity |].
  destruct (exec c w); simpl; auto.
Qed.

Lemma exec_tokens_only (c : call) (w w' : world) :
  exec c w = Ok w' -> tokens_only w -> tokens_only w'.
Proof.
  intros Hex [k Hk]. destruct c; simpl in Hex.
  - injection Hex as <-. unfold indent. destruct (_enabled w).
    + exists (S k). simpl indent_str. now rewrite Hk, tokens_snoc.
    + now exists k.
  - destruct (_enabled w) eqn:He.
    + destruct k as [|k].
      * unfold undent in Hex. rewrite He, Hk in Hex. discriminate.
      * rewrite (undent_token w (tokens k)) in Hex
          by (auto; now rewrite Hk, tokens_snoc).
        injection Hex as <-. now exists k.
    + unfold undent in Hex. rewrite He in Hex. injection Hex as <-. now exists k.
  - unfold cout in Hex. destruct (_enabled w); injection Hex as <-;
      exists k; now rewrite (proj2 (inserts_frame _ _ _)).
  - apply println_frame in Hex as [_ Hi]. exists k. congruence.
  - apply print_frame in Hex as [_ Hi]. exists k. congruence.
  - injection Hex as <-. now exists k.
  - injection Hex as <-. now exists k.
  - injection Hex as <-. now exists k.
  - apply attention_frame in Hex as [_ Hi]. exists k. congruence.
Qed.

Lemma run_tokens_only (cs : list call) (w w' : world) :
  run cs w = Ok w' -> tokens_only w -> tokens_only w'.
Proof.
  revert w. induction cs as [|c cs IH]; intros w; simpl.
  - now intros [= <-].
  - destruct (exec c w) as [w1|] eqn:Hex; [|discriminate]. simpl.
    intros Hrun Hw. eauto using exec_tokens_only.
Qed.

Lemma reachable_tokens_only (w : world) : reachable w -> tokens_only w.
Proof.
  intros [cs Hcs]. apply (run_tokens_only cs initial); [assumption |].
  now exists O.
Qed.

(** Bookkeeping and execution agree on indent/undent sequences. *)
Lemma run_unmatched (cs : list call) :
  forall (depth k : nat) (p : string) (w : world),
    _enabled w = true -> indent_str w = p ++ tokens depth ->
    unmatched cs depth = Some k ->
    run cs w = Ok (set_indent_str (p ++ tokens k) w).
Proof.
  induction cs as [|c cs IH]; intros depth k p w He Hp Hu; simpl in Hu.
  - injection Hu as <-. simpl. now rewrite <- Hp, set_indent_str_same.
  - destruct c; try discriminate; simpl.
    + rewrite (IH (S depth) k p (indent w)); auto.
      * unfold indent. now rewrite He.
      * unfold indent. now rewrite He.
      * unfold indent. rewrite He. simpl.
        now rewrite Hp, append_assoc, tokens_snoc.
    + destruct depth as [|depth]; [discriminate |].
      rewrite (undent_token w (p ++ tokens depth))
        by (auto; now rewrite Hp, append_assoc, tokens_snoc).
      simpl. now rewrite (IH depth k p (set_indent_str (p ++ tokens depth) w)).
Qed.

Lemma unmatched_app (cs1 cs2 : list call) :
  forall depth k,
    unmatched cs1 depth = Some k ->
    unmatched (cs1 ++ cs2)%list depth = unmatched cs2 k.
Proof.
  induction cs1 as [|c cs1 IH]; intros depth k H; simpl in *.
  - now injection H as <-.
  - destruct c; try discriminate; auto.
    destruct depth; [discriminate | auto].
Qed.

Lemma unmatched_deeper (cs : list call) :
  forall depth k n,
    unmatched cs depth = Some k ->
    unmatched cs (depth + n) = Some (k + n)%nat.
Proof.
  induction cs as [|c cs IH]; intros depth k n H; simpl in *.
  - now injection H as <-.
  - destruct c; try discriminate.
    + apply (IH (S depth)); assumption.
    + destruct depth; [discriminate |]. simpl. auto.
Qed.

Lemma unmatched_indents (n : nat) (cs : list call) (depth : nat) :
  unmatched (repeat call_indent n ++ cs)%list depth = unmatched cs (n + depth).
Proof.
  revert depth. induction n as [|n IH]; intros depth; simpl; [reflexivity |].
  rewrite IH. f_equal. lia.
Qed.

Lemma unmatched_undents (n depth : nat) :
  unmatched (repeat call_undent n) (n + depth) = Some depth.
Proof. induction n as [|n IH]; simpl; auto. Qed.

Lemma run_toggles (cs : list call) :
  forall w, forallb is_toggle cs = true -> exists w', run cs w = Ok w'.
Proof.
  induction cs as [|c cs IH]; intros w H; simpl in *.
  - now exists w.
  - apply andb_true_iff in H as [Hc Hcs].
    destruct c; try discriminate; simpl; auto.
Qed.

(** What [println] writes at nesting depth [k]. *)
Lemma println_writes (fmt : string) (va : va_list) (msg : string) (k : nat) (w : world) :
  _enabled w = true -> indent_str w = tokens k -> vformat fmt va = Some msg ->
  println fmt va w = Ok (write_stdout (tokens k ++ msg ++ LF) w).
Proof.
  intros He Hk Hm. unfold println, printf, vprintf.
  rewrite He, Hk, vformat_tokens. cbn [bind]. rewrite Hm. cbn [bind].
  rewrite vformat_plain_LF. now rewrite !write_stdout_twice.
Qed.

(** [undent()] returns whenever there are two characters to drop. *)
Lemma undent_returns (w : world) :
  2 <= size (indent_str w) -> exists w', undent w = Ok w'.
Proof.
  intros Hs. unfold undent. destruct (_enabled w); [| now exists w].
  assert (He : empty (indent_str w) = false).
  { destruct (indent_str w); [unfold size in Hs; simpl in Hs; lia | reflexivity]. }
  rewrite He. simpl. unfold resize, size_t_sub.
  replace (2 <=? size (indent_str w)) with true by (symmetry; apply Z.leb_le; lia).
  replace (size (indent_str w) - 2 <=? size (indent_str w)) with true
    by (symmetry; apply Z.leb_le; lia).
  simpl. eauto.
Qed.

(** * The model on concrete inputs *)

Example vformat_int : vformat "value=%d" [va_int 42] = Some "value=42".
Proof. reflexivity. Qed.

Example vformat_mixed :
  vformat "%s=%i (%c) 100%%" [va_str "n"; va_int (-7); va_int 65]
  = Some "n=-7 (A) 100%".
Proof. reflexivity. Qed.

Example vformat_missing_argument : vformat "value=%d" [] = None.
Proof. reflexivity. Qed.

Example vformat_wrong_argument : vformat "value=%d" [va_str "x"] = None.
Proof. reflexivity. Qed.

Example undent_after_indent :
  undent (indent (enable initial)) = Ok (enable initial).
Proof. reflexivity. Qed.

Example undent_on_start : undent (enable initial) = Fault AssertionFailed.
Proof. reflexivity. Qed.

(** Not a world of the process (see [reachable_tokens_only]): with one
    character the assertion passes and [size() - 2] wraps around. *)
Example undent_half_token :
  undent {| _enabled := true; indent_str := "*"; stdout := "" |}
  = Fault LengthError.
Proof. reflexivity. Qed.

Example cout_then_write :
  run [call_enable; call_indent; call_cout ["x = "; "1"; LF]] initial
  = Ok {| _enabled := true; indent_str := "* ";
          stdout := "* x = 1" ++ LF |}.
Proof. reflexivity. Qed.

Example print_sequence :
  run [call_println "a" []; call_enable; call_print "b%d" [va_int 1];
       call_indent; call_println "c" []; call_disable;
       call_attention "d" []; call_undent; call_enable; call_undent;
       call_println "e" []] initial
  = Ok {| _enabled := true; indent_str := "";
          stdout := "b1* c" ++ LF ++ "***ATTENTION*** d" ++ LF ++ "e" ++ LF |}.
Proof. reflexivity. Qed.

(** * The properties of the specification *)

(** C1. [undent()] called while logging is enabled and the indent prefix
    is empty stops the process on the failed assertion instead of
    returning; in every world the process can reach where the prefix is
    non-empty, or logging is disabled, [undent()] returns normally.  (So
    it does in any world at all whose prefix holds two characters or
    more; a prefix of one character, which no sequence of calls
    produces, is the only other way to a fault.) *)
Theorem undent_aborts_exactly_on_empty_prefix (w : world) :
  (_enabled w = true -> empty (indent_str w) = true ->
   undent w = Fault AssertionFailed) /\
  (reachable w -> empty (indent_str w) = false \/ _enabled w = false ->
   exists w', undent w = Ok w') /\
  (2 <= size (indent_str w) \/ _enabled w = false ->
   exists w', undent w = Ok w').
Proof.
  split; [| split].
  - intros He Hp. unfold undent. now rewrite He, Hp.
  - intros Hr [Hp | Hd].
    + destruct (_enabled w) eqn:He.
      * destruct (reachable_tokens_only w Hr) as [k Hk].
        rewrite Hk in Hp. apply empty_tokens in Hp as [k' ->].
        exists (set_indent_str (tokens k') w).
        apply undent_token; [assumption | now rewrite Hk, tokens_snoc].
      * exists w. unfold undent. now rewrite He.
    + exists w. unfold undent. now rewrite Hd.
  - intros [Hs | Hd].
    + now apply undent_returns.
    + exists w. unfold undent. now rewrite Hd.
Qed.

Lemma undent_aborts_exactly_on_empty_prefix_witness :
  undent (enable initial) = Fault AssertionFailed /\
  (exists w', undent (indent (enable initial)) = Ok w') /\
  (exists w', undent initial = Ok w') /\
  (exists w', undent (mkWorld true "ab" "") = Ok w').
Proof.
  split; [| split; [| split]].
  - apply (proj1 (undent_aborts_exactly_on_empty_prefix (enable initial)));
      reflexivity.
  - apply (proj1 (proj2 (undent_aborts_exactly_on_empty_prefix
                           (indent (enable initial))))).
    + exists [call_enable; call_indent]. reflexivity.
    + left. reflexivity.
  - apply (proj1 (proj2 (undent_aborts_exactly_on_empty_prefix initial))).
    + exists []. reflexivity.
    + right. reflexivity.
  - apply (proj2 (proj2 (undent_aborts_exactly_on_empty_prefix
                           (mkWorld true "ab" "")))).
    left. unfold size. simpl. lia.
Defined.

(** C2. While logging is disabled, [print], [println] and the writes
    made through the handle [cout()] returns put nothing on standard
    output, [indent()] and [undent()] change nothing, and [attention]
    still writes its line. *)
Theorem disabled_is_silent (w : world) :
  _enabled w = false ->
  (forall fmt va, print fmt va w = Ok w) /\
  (forall fmt va, println fmt va w = Ok w) /\
  (forall texts,
     stdout (inserts (fst (cout w)) texts (snd (cout w))) = stdout w) /\
  indent w = w /\
  undent w = Ok w /\
  (forall fmt va msg, vformat fmt va = Some msg ->
     exists w', attention fmt va w = Ok w' /\
       stdout w' = stdout w ++ "***ATTENTION*** " ++ msg ++ LF /\
       stdout w' <> stdout w).
Proof.
  intros Hd. split; [| split; [| split; [| split; [| split]]]].
  - intros fmt va. unfold print. now rewrite Hd.
  - intros fmt va. unfold println. now rewrite Hd.
  - intros texts. unfold cout. rewrite Hd. simpl.
    now rewrite inserts_null_out.
  - unfold indent. now rewrite Hd.
  - unfold undent. now rewrite Hd.
  - intros fmt va msg Hm. eexists. split; [exact (attention_writes _ _ _ w Hm) |].
    split; [reflexivity |]. simpl stdout. intros H.
    apply append_cancel_empty in H. discriminate.
Qed.

Lemma disabled_is_silent_witness :
  print "value=%d" [va_int 42] initial = Ok initial /\
  println "value=%d" [va_int 42] initial = Ok initial /\
  stdout (inserts (fst (cout initial)) ["a"; "b"] (snd (cout initial))) = "" /\
  exists w', attention "disk full" [] initial = Ok w' /\ stdout w' <> "".
Proof.
  destruct (disabled_is_silent initial eq_refl)
    as (Hprint & Hprintln & Hcout & _ & _ & Hatt).
  split; [apply Hprint | split; [apply Hprintln | split; [apply Hcout |]]].
  destruct (Hatt "disk full" [] "disk full" eq_refl) as (w' & Hw' & _ & Hne).
  exists w'. split; assumption.
Defined.

(** C3. After any sequence of [enable()]/[disable()] calls, from any
    state, [attention(fmt, ...)] writes exactly "***ATTENTION*** ", the
    formatted message and a line feed to standard output; in particular
    [attention("disk full")] writes "***ATTENTION*** disk full" and a
    line feed. *)
Theorem attention_always_prints
    (cs : list call) (w0 : world) (fmt : string) (va : va_list) (msg : string) :
  forallb is_toggle cs = true ->
  vformat fmt va = Some msg ->
  exists w,
    run cs w0 = Ok w /\
    attention fmt va w = Ok (write_stdout ("***ATTENTION*** " ++ msg ++ LF) w) /\
    attention "disk full" [] w =
      Ok (write_stdout ("***ATTENTION*** disk full" ++ LF) w).
Proof.
  intros Ht Hm. destruct (run_toggles cs w0 Ht) as [w Hw].
  exists w. split; [assumption |]. split.
  - now apply attention_writes.
  - now apply (attention_writes "disk full" [] "disk full").
Qed.

Lemma attention_always_prints_witness :
  exists w,
    run [call_enable; call_disable; call_disable] initial = Ok w /\
    attention "code %d: %s" [va_int 7; va_str "disk full"] w =
      Ok (write_stdout ("***ATTENTION*** code 7: disk full" ++ LF) w) /\
    attention "disk full" [] w =
      Ok (write_stdout ("***ATTENTION*** disk full" ++ LF) w).
Proof.
  apply (attention_always_prints
           [call_enable; call_disable; call_disable] initial
           "code %d: %s" [va_int 7; va_str "disk full"] "code 7: disk full");
    reflexivity.
Defined.

(** C4. From the initial state, [enable()], then [n] calls of
    [indent()], then [n] calls of [undent()], then [disable()] end in the
    initial state again (empty prefix, flag false), for every [n]. *)
Theorem indent_undent_round_trip (n : nat) :
  run ([call_enable] ++ repeat call_indent n ++ repeat call_undent n
         ++ [call_disable])%list initial
  = Ok initial.
Proof.
  simpl. rewrite app_assoc, run_app.
  rewrite (run_unmatched _ 0 0 "" (enable initial)); try reflexivity.
  rewrite unmatched_indents. apply unmatched_undents.
Qed.

Lemma balanced_unmatched (d : list call) :
  balanced d = true -> unmatched d 0 = Some O.
Proof.
  unfold balanced. destruct (unmatched d 0) as [[|k]|]; now try discriminate.
Qed.

Lemma unmatched_pair (d : list call) (k : nat) :
  balanced d = true ->
  unmatched (call_indent :: d ++ [call_undent])%list k = Some k.
Proof.
  intros Hd. simpl.
  rewrite (unmatched_app d [call_undent] (S k) (S k)); [reflexivity |].
  apply (unmatched_deeper d 0 0 (S k)). now apply balanced_unmatched.
Qed.

(** C5. While logging is enabled, along every well-nested sequence of
    [indent()]/[undent()] calls each matched pair (an [indent()], a
    balanced sequence, its [undent()]) brings the state, hence the indent
    prefix, back to what it was before the pair, and a sequence that
    leaves [k] calls of [indent()] unmatched has appended [k] tokens: the
    prefix is longer by exactly [2 * k] characters. *)
Theorem balanced_nesting (w : world) :
  _enabled w = true ->
  (forall pre d k,
     unmatched pre 0 = Some k -> balanced d = true ->
     exists w1,
       run pre w = Ok w1 /\
       run (pre ++ call_indent :: d ++ [call_undent])%list w = Ok w1) /\
  (forall cs k,
     unmatched cs 0 = Some k ->
     exists w',
       run cs w = Ok w' /\
       indent_str w' = indent_str w ++ tokens k /\
       size (indent_str w') = size (indent_str w) + 2 * Z.of_nat k).
Proof.
  intros He.
  assert (Hrun : forall cs k, unmatched cs 0 = Some k ->
            run cs w = Ok (set_indent_str (indent_str w ++ tokens k) w)).
  { intros cs k Hu. apply (run_unmatched cs 0 k); auto.
    simpl. now rewrite append_empty_r. }
  split.
  - intros pre d k Hpre Hd. eexists. split; [exact (Hrun pre k Hpre) |].
    apply Hrun. rewrite (unmatched_app pre _ 0 k Hpre).
    now apply unmatched_pair.
  - intros cs k Hu. eexists. split; [exact (Hrun cs k Hu) |].
    cbn [indent_str set_indent_str]. split; [reflexivity |].
    unfold size. rewrite length_append, length_tokens. lia.
Qed.

Lemma balanced_nesting_witness :
  (exists w1,
     run [call_indent] (enable initial) = Ok w1 /\
     run ([call_indent] ++ call_indent :: [call_indent; call_undent]
            ++ [call_undent])%list (enable initial) = Ok w1) /\
  (exists w',
     run [call_indent; call_indent; call_undent; call_indent] (enable initial)
       = Ok w' /\
     indent_str w' = indent_str (enable initial) ++ tokens 2 /\
     size (indent_str w') = size (indent_str (enable initial)) + 2 * Z.of_nat 2).
Proof.
  destruct (balanced_nesting (enable initial) eq_refl) as [Hpair Hopen].
  split.
  - apply (Hpair [call_indent] [call_indent; call_undent] 1%nat); reflexivity.
  - apply (Hopen [call_indent; call_indent; call_undent; call_indent] 2%nat).
    reflexivity.
Defined.

(** C6. With logging enabled and an empty indent prefix,
    [println("value=%d", 42)] writes exactly "value=42" and a line feed;
    after one [indent()] the same call writes exactly "* value=42" and a
    line feed. *)
Theorem println_value (w : world) :
  _enabled w = true -> indent_str w = "" ->
  println "value=%d" [va_int 42] w = Ok (write_stdout ("value=42" ++ LF) w) /\
  println "value=%d" [va_int 42] (indent w)
    = Ok (write_stdout ("* value=42" ++ LF) (indent w)).
Proof.
  intros He Hp. split.
  - apply (println_writes _ _ "value=42" 0); auto.
  - apply (println_writes _ _ "value=42" 1).
    + unfold indent. now rewrite He.
    + unfold indent. rewrite He. simpl. now rewrite Hp.
    + reflexivity.
Qed.

Lemma println_value_witness :
  println "value=%d" [va_int 42] (enable initial)
    = Ok (write_stdout ("value=42" ++ LF) (enable initial)) /\
  println "value=%d" [va_int 42] (indent (enable initial))
    = Ok (write_stdout ("* value=42" ++ LF) (indent (enable initial))).
Proof.
  apply (println_value (enable initial)); reflexivity.
Defined.

(** C7. In every state reachable from the initial one by calls of the
    interface (among them [enable()], [disable()], [indent()] and the
    returning [undent()]), the indent prefix is a whole number of tokens:
    its length is non-negative, even, and a multiple of the token length
    2. *)
Theorem prefix_length_invariant (w : world) :
  reachable w ->
  0 <= size (indent_str w) /\
  Z.Even (size (indent_str w)) /\
  exists k : nat,
    indent_str w = tokens k /\ size (indent_str w) = 2 * Z.of_nat k.
Proof.
  intros Hr. destruct (reachable_tokens_only w Hr) as [k Hk].
  assert (Hs : size (indent_str w) = 2 * Z.of_nat k).
  { unfold size. rewrite Hk, length_tokens. lia. }
  split; [lia |]. split; [now exists (Z.of_nat k) |]. now exists k.
Qed.

Lemma prefix_length_invariant_witness :
  0 <= size (indent_str (indent (indent (enable initial)))) /\
  Z.Even (size (indent_str (indent (indent (enable initial))))) /\
  exists k : nat,
    indent_str (indent (indent (enable initial))) = tokens k /\
    size (indent_str (indent (indent (enable initial)))) = 2 * Z.of_nat k.
Proof.
  apply (prefix_length_invariant (indent (indent (enable initial)))).
  exists [call_enable; call_indent; call_indent]. reflexivity.
Defined.

(** C8. [cout()] with logging enabled returns the handle of standard
    output, onto which it has just written the current indent prefix;
    with logging disabled it returns the handle of the null sink, every
    write to which is dropped.  Which handle is returned is a function
    of the enabled flag at the call alone. *)
Theorem cout_handle (w : world) :
  (_enabled w = true ->
   cout w = (std_cout, write_stdout (indent_str w) w)) /\
  (_enabled w = false -> cout w = (null_out, w)) /\
  (forall text w', insert std_cout text w' = write_stdout text w') /\
  (forall text w', insert null_out text w' = w') /\
  (forall w2, _enabled w2 = _enabled w -> fst (cout w2) = fst (cout w)).
Proof.
  unfold cout. repeat split; try reflexivity.
  - intros ->. reflexivity.
  - intros ->. reflexivity.
  - intros w2 ->. now destruct (_enabled w).
Qed.

Lemma cout_handle_witness :
  cout (indent (enable initial))
    = (std_cout, write_stdout "* " (indent (enable initial))) /\
  cout (disable (indent (enable initial)))
    = (null_out, disable (indent (enable initial))) /\
  fst (cout (enable initial)) = fst (cout (indent (enable initial))).
Proof.
  split; [| split].
  - apply (proj1 (cout_handle (indent (enable initial)))). reflexivity.
  - apply (proj1 (proj2 (cout_handle (disable (indent (enable initial)))))).
    reflexivity.
  - apply (proj2 (proj2 (proj2 (proj2 (cout_handle (indent (enable initial))))))).
    reflexivity.
Defined.

(** C9. [enable()] and [disable()] change the enabled flag only; the
    indent prefix (and what was written) stays.  So [disable()] followed
    by [enable()] resumes output at the nesting depth reached before:
    [println] then writes the same [k] tokens in front of the message. *)
Theorem toggles_keep_prefix (w : world) :
  _enabled (enable w) = true /\
  _enabled (disable w) = false /\
  indent_str (enable w) = indent_str w /\
  indent_str (disable w) = indent_str w /\
  stdout (enable w) = stdout w /\
  stdout (disable w) = stdout w /\
  indent_str (enable (disable w)) = indent_str w /\
  (_enabled w = true -> enable (disable w) = w) /\
  (forall k fmt va msg,
     indent_str w = tokens k -> vformat fmt va = Some msg ->
     println fmt va (enable (disable w))
       = Ok (write_stdout (tokens k ++ msg ++ LF) (enable w))).
Proof.
  repeat split.
  - intros He. destruct w. simpl in He. subst. reflexivity.
  - intros k fmt va msg Hk Hm.
    apply (println_writes fmt va msg k (enable w)); auto.
Qed.

Lemma toggles_keep_prefix_witness :
  enable (disable (indent (enable initial))) = indent (enable initial) /\
  println "value=%d" [va_int 42] (enable (disable (indent (enable initial))))
    = Ok (write_stdout ("* value=42" ++ LF) (indent (enable initial))).
Proof.
  destruct (toggles_keep_prefix (indent (enable initial)))
    as (_ & _ & _ & _ & _ & _ & _ & Hback & Hout).
  split.
  - apply Hback. reflexivity.
  - apply (Hout 1%nat "value=%d" [va_int 42] "value=42"); reflexivity.
Defined.

(** C10. The line [attention(fmt, ...)] writes never carries the indent
    prefix: in every state, also with logging enabled and a non-empty
    prefix, what reaches standard output starts with "***ATTENTION*** "
    and not with an indent token. *)
Theorem attention_not_indented
    (w : world) (fmt : string) (va : va_list) (msg : string) :
  vformat fmt va = Some msg ->
  exists line,
    attention fmt va w = Ok (write_stdout line w) /\
    line = "***ATTENTION*** " ++ msg ++ LF /\
    prefix "***ATTENTION*** " line = true /\
    prefix "* " line = false.
Proof.
  intros Hm. exists ("***ATTENTION*** " ++ msg ++ LF).
  split; [now apply attention_writes |]. split; [reflexivity |].
  split; [| reflexivity].
  simpl. now destruct (msg ++ LF).
Qed.

Lemma attention_not_indented_witness :
  exists line,
    attention "disk full" [] (indent (indent (enable initial)))
      = Ok (write_stdout line (indent (indent (enable initial)))) /\
    line = "***ATTENTION*** " ++ "disk full" ++ LF /\
    prefix "***ATTENTION*** " line = true /\
    prefix "* " line = false.
Proof.
  apply (attention_not_indented (indent (indent (enable initial)))
           "disk full" [] "disk full").
  reflexivity.
Defined.

(** * Further properties of the logger *)

(** ** Helper facts *)


Lemma undent_frame (w w' : world) :
  undent w = Ok w' -> _enabled w' = _enabled w /\ stdout w' = stdout w.
Proof.
  unfold undent. destruct (_enabled w) eqn:He.
  - destruct (assert (negb (empty (indent_str w)))); [|discriminate]. simpl.
    destruct (resize _ _); [|discriminate]. simpl.
    intros [= <-]. simpl. now split.
  - intros [= <-]. now split.
Qed.

Lemma inserts_std_cout (texts : list string) (w : world) :
  inserts std_cout texts w = write_stdout (joined texts) w.
Proof.
  unfold inserts. revert w.
  induction texts as [|t texts IH]; intros w; simpl.
  - now rewrite write_stdout_empty.
  - rewrite IH. apply write_stdout_twice.
Qed.

(** [print] and [println] at nesting depth [k], whatever the format. *)
Lemma print_on_tokens (fmt : string) (va : va_list) (k : nat) (w : world) :
  _enabled w = true -> indent_str w = tokens k ->
  print fmt va w =
    match vformat fmt va with
    | Some msg => Ok (write_stdout (tokens k ++ msg) w)
    | None => Fault UndefinedBehaviour
    end.
Proof.
  intros He Hk. unfold print, printf, vprintf.
  rewrite He, Hk, vformat_tokens. cbn [bind].
  destruct (vformat fmt va); [| reflexivity].
  now rewrite write_stdout_twice.
Qed.

Lemma println_on_tokens (fmt : string) (va : va_list) (k : nat) (w : world) :
  _enabled w = true -> indent_str w = tokens k ->
  println fmt va w =
    match vformat fmt va with
    | Some msg => Ok (write_stdout (tokens k ++ msg ++ LF) w)
    | None => Fault UndefinedBehaviour
    end.
Proof.
  intros He Hk. unfold println, printf, vprintf.
  rewrite He, Hk, vformat_tokens. cbn [bind].
  destruct (vformat fmt va); [| reflexivity]. cbn [bind].
  rewrite vformat_plain_LF. now rewrite !write_stdout_twice.
Qed.

Lemma attention_on_format (fmt : string) (va : va_list) (w : world) :
  attention fmt va w =
    match vformat fmt va with
    | Some msg => Ok (write_stdout ("***ATTENTION*** " ++ msg ++ LF) w)
    | None => Fault UndefinedBehaviour
    end.
Proof.
  destruct (vformat fmt va) as [msg|] eqn:Hm.
  - now apply attention_writes.
  - unfold attention, printf, vprintf. rewrite vformat_banner. cbn [bind].
    now rewrite Hm.
Qed.

(** The flag after one call. *)
Lemma exec_flag (c : call) (w w' : world) :
  exec c w = Ok w' ->
  _enabled w' =
    match c with
    | call_enable => true
    | call_disable => false
    | _ => _enabled w
    end.
Proof.
  destruct c; simpl; intros H.
  - injection H as <-. unfold indent.
    destruct (_enabled w) eqn:He; simpl; auto.
  - exact (proj1 (undent_frame _ _ H)).
  - unfold cout in H. destruct (_enabled w) eqn:He; injection H as <-;
      rewrite (proj1 (inserts_frame _ _ _)); simpl; auto.
  - exact (proj1 (println_frame _ _ _ _ H)).
  - exact (proj1 (print_frame _ _ _ _ H)).
  - now injection H as <-.
  - now injection H as <-.
  - now injection H as <-.
  - exact (proj1 (attention_frame _ _ _ _ H)).
Qed.


Lemma disable_disabled (w : world) : _enabled w = false -> disable w = w.
Proof. destruct w; simpl. now intros ->. Qed.

(** ** Formatted output *)

(** X1. With logging enabled, [print] writes the indent prefix and the
    formatted message, with no line feed; [println] writes the same and
    one line feed. *)
Theorem print_writes_prefix_and_message
    (w : world) (fmt : string) (va : va_list) (msg : string) :
  reachable w -> _enabled w = true -> vformat fmt va = Some msg ->
  print fmt va w = Ok (write_stdout (indent_str w ++ msg) w) /\
  println fmt va w = Ok (write_stdout ((indent_str w ++ msg) ++ LF) w).
Proof.
  intros Hr He Hm. destruct (reachable_tokens_only w Hr) as [k Hk].
  rewrite (print_on_tokens fmt va k), (println_on_tokens fmt va k) by assumption.
  now rewrite Hm, Hk, append_assoc.
Qed.

Lemma print_writes_prefix_and_message_witness :
  print "n=%d" [va_int 3] (indent (enable initial))
    = Ok (write_stdout "* n=3" (indent (enable initial))) /\
  println "n=%d" [va_int 3] (indent (enable initial))
    = Ok (write_stdout ("* n=3" ++ LF) (indent (enable initial))).
Proof.
  apply (print_writes_prefix_and_message (indent (enable initial))
           "n=%d" [va_int 3] "n=3").
  - exists [call_enable; call_indent]. reflexivity.
  - reflexivity.
  - reflexivity.
Defined.



(** ** The switch *)

(** X3. After any sequence of calls that returns, [enabled()] answers
    what the last [enable()]/[disable()] of the sequence set, and what
    it answered before when the sequence holds neither: no other call
    touches the flag. *)
Theorem enabled_is_last_toggle (cs : list call) (w w' : world) :
  run cs w = Ok w' ->
  enabled w' =
    match last_toggle cs with
    | Some b => b
    | None => enabled w
    end.
Proof.
  unfold enabled. revert w.
  induction cs as [|c cs IH]; intros w; simpl.
  - now intros [= <-].
  - destruct (exec c w) as [w1|] eqn:Hex; [|discriminate]. simpl.
    intros Hrun. rewrite (IH w1 Hrun).
    destruct (last_toggle cs); [reflexivity |].
    rewrite (exec_flag c w w1 Hex). now destruct c.
Qed.

Lemma enabled_is_last_toggle_witness :
  enabled (indent (disable (enable initial))) = false /\
  enabled (indent initial) = enabled initial.
Proof.
  split.
  - apply (enabled_is_last_toggle [call_enable; call_disable; call_indent] initial).
    reflexivity.
  - apply (enabled_is_last_toggle [call_indent] initial). reflexivity.
Defined.



(** X5. A disabled logger is inert: a sequence of calls holding neither
    [enable()] nor [attention] returns and leaves flag, prefix and
    standard output as they were; no [undent()] in it can abort and no
    format in it is looked at. *)
Theorem disabled_logger_is_inert (cs : list call) (w : world) :
  _enabled w = false -> forallb is_quiet cs = true -> run cs w = Ok w.
Proof.
  intros Hd. induction cs as [|c cs IH]; simpl; [reflexivity |].
  intros H. apply andb_true_iff in H as [Hc Hcs].
  assert (Hex : exec c w = Ok w).
  { destruct c; try discriminate; simpl.
    - unfold indent. now rewrite Hd.
    - unfold undent. now rewrite Hd.
    - unfold cout. rewrite Hd. now rewrite inserts_null_out.
    - unfold println. now rewrite Hd.
    - unfold print. now rewrite Hd.
    - now rewrite disable_disabled.
    - reflexivity. }
  rewrite Hex. simpl. auto.
Qed.

Lemma disabled_logger_is_inert_witness :
  run [call_undent; call_println "%d" []; call_cout ["x"]; call_indent;
       call_disable; call_undent] initial
  = Ok initial.
Proof.
  apply (disabled_logger_is_inert
           [call_undent; call_println "%d" []; call_cout ["x"]; call_indent;
            call_disable; call_undent] initial); reflexivity.
Defined.

(** ** More helper facts *)

Lemma exec_prefix_frame (c : call) (w w' : world) :
  exec c w = Ok w' -> is_nesting c = false -> indent_str w' = indent_str w.
Proof.
  destruct c; simpl; intros H Hn; try discriminate.
  - unfold cout in H. destruct (_enabled w); injection H as <-;
      now rewrite (proj2 (inserts_frame _ _ _)).
  - exact (proj2 (println_frame _ _ _ _ H)).
  - exact (proj2 (print_frame _ _ _ _ H)).
  - now injection H as <-.
  - now injection H as <-.
  - now injection H as <-.
  - exact (proj2 (attention_frame _ _ _ _ H)).
Qed.

Lemma exec_stdout_frame (c : call) (w w' : world) :
  exec c w = Ok w' -> is_output c = false -> stdout w' = stdout w.
Proof.
  destruct c; simpl; intros H Ho; try discriminate.
  - injection H as <-. unfold indent. now destruct (_enabled w).
  - exact (proj2 (undent_frame _ _ H)).
  - now injection H as <-.
  - now injection H as <-.
  - now injection H as <-.
Qed.

Lemma indent_flag (w : world) : _enabled (indent w) = _enabled w.
Proof. unfold indent. destruct (_enabled w) eqn:He; simpl; auto. Qed.

Lemma run_indents_disabled (n : nat) (cs : list call) (w : world) :
  _enabled w = false -> run (repeat call_indent n ++ cs)%list w = run cs w.
Proof.
  intros Hd. induction n as [|n IH]; simpl; [reflexivity |].
  unfold indent at 1. now rewrite Hd.
Qed.

(** One call from a state whose prefix is made of tokens never meets the
    wrap-around of [size() - 2]. *)
Lemma exec_no_length_error (c : call) (w : world) :
  tokens_only w -> exec c w <> Fault LengthError.
Proof.
  intros [k Hk]. destruct c; simpl; try discriminate.
  - destruct (_enabled w) eqn:He.
    + destruct k as [|k].
      * unfold undent. rewrite He, Hk. discriminate.
      * rewrite (undent_token w (tokens k))
          by (auto; now rewrite Hk, tokens_snoc).
        discriminate.
    + unfold undent. rewrite He. discriminate.
  - now destruct (cout w).
  - destruct (_enabled w) eqn:He.
    + rewrite (println_on_tokens fmt va k) by assumption.
      destruct (vformat fmt va); discriminate.
    + unfold println. rewrite He. discriminate.
  - destruct (_enabled w) eqn:He.
    + rewrite (print_on_tokens fmt va k) by assumption.
      destruct (vformat fmt va); discriminate.
    + unfold print. rewrite He. discriminate.
  - rewrite attention_on_format. destruct (vformat fmt va); discriminate.
Qed.

Lemma run_no_length_error (cs : list call) :
  forall w, tokens_only w -> run cs w <> Fault LengthError.
Proof.
  induction cs as [|c cs IH]; intros w Hw; simpl; [discriminate |].
  destruct (exec c w) as [w1|f] eqn:Hex; simpl.
  - apply IH. eauto using exec_tokens_only.
  - intros [= ->]. now apply (exec_no_length_error c w).
Qed.

Lemma vformat_plain (s : string) (va : va_list) :
  plain s = true -> vformat s va = Some s.
Proof.
  induction s as [|c s IH]; simpl; [reflexivity |].
  intros H. apply andb_true_iff in H as [H Hs].
  apply andb_true_iff in H as [Hn Hp].
  apply negb_true_iff in Hn, Hp. rewrite Hn, Hp, (IH Hs). reflexivity.
Qed.

Lemma length_substring_0 (s : string) :
  forall n, (n <= String.length s)%nat -> String.length (substring 0 n s) = n.
Proof.
  induction s as [|c s IH]; intros [|n] H; simpl in *; try reflexivity; try lia.
  rewrite IH; lia.
Qed.

Lemma vprintf_fault (fmt : string) (va : va_list) (w : world) (f : fault) :
  vprintf fmt va w = Fault f -> f = UndefinedBehaviour.
Proof.
  unfold vprintf. destruct (vformat fmt va); [discriminate |]. now intros [= <-].
Qed.

Lemma println_fault (fmt : string) (va : va_list) (w : world) (f : fault) :
  println fmt va w = Fault f -> f = UndefinedBehaviour.
Proof.
  unfold println, printf. destruct (_enabled w); [| discriminate].
  destruct (vprintf (indent_str w) [] w) as [w1|f1] eqn:H1; simpl.
  - destruct (vprintf fmt va w1) as [w2|f2] eqn:H2; simpl.
    + apply vprintf_fault.
    + intros [= <-]. exact (vprintf_fault _ _ _ _ H2).
  - intros [= <-]. exact (vprintf_fault _ _ _ _ H1).
Qed.

Lemma print_fault (fmt : string) (va : va_list) (w : world) (f : fault) :
  print fmt va w = Fault f -> f = UndefinedBehaviour.
Proof.
  unfold print, printf. destruct (_enabled w); [| discriminate].
  destruct (vprintf (indent_str w) [] w) as [w1|f1] eqn:H1; simpl.
  - apply vprintf_fault.
  - intros [= <-]. exact (vprintf_fault _ _ _ _ H1).
Qed.

Lemma attention_fault (fmt : string) (va : va_list) (w : world) (f : fault) :
  attention fmt va w = Fault f -> f = UndefinedBehaviour.
Proof.
  rewrite attention_on_format. destruct (vformat fmt va); [discriminate |].
  now intros [= <-].
Qed.

(** The counting model and the execution, side by side. *)
Lemma run_nesting (cs : list call) :
  forall (w : world) (k : nat),
    indent_str w = tokens k ->
    match run cs w with
    | Ok w' =>
        exists k', nesting cs (_enabled w) k = Some (_enabled w', k') /\
                   indent_str w' = tokens k'
    | Fault AssertionFailed => nesting cs (_enabled w) k = None
    | Fault _ => True
    end.
Proof.
  induction cs as [|c cs IH]; intros w k Hk; simpl.
  - now exists k.
  - destruct c; simpl.
    + specialize (IH (indent w) (if _enabled w then S k else k)).
      rewrite indent_flag in IH. apply IH.
      unfold indent. destruct (_enabled w); simpl; [| assumption].
      now rewrite Hk, tokens_snoc.
    + destruct (_enabled w) eqn:He.
      * destruct k as [|k].
        -- unfold undent. rewrite He, Hk. reflexivity.
        -- rewrite (undent_token w (tokens k))
             by (auto; now rewrite Hk, tokens_snoc).
           simpl. specialize (IH (set_indent_str (tokens k) w) k eq_refl).
           simpl in IH. now rewrite He in IH.
      * unfold undent. rewrite He. simpl. specialize (IH w k Hk).
        now rewrite He in IH.
    + unfold cout. destruct (_enabled w) eqn:He; simpl.
      * specialize (IH (inserts std_cout texts (write_stdout (indent_str w) w)) k).
        rewrite (proj1 (inserts_frame _ _ _)), (proj2 (inserts_frame _ _ _)) in IH.
        simpl in IH. rewrite He in IH. now apply IH.
      * rewrite inserts_null_out. specialize (IH w k Hk). now rewrite He in IH.
    + destruct (println fmt va w) as [w1|f] eqn:Hex; simpl.
      * apply println_frame in Hex as [<- Hp]. apply IH. congruence.
      * now rewrite (println_fault _ _ _ _ Hex).
    + destruct (print fmt va w) as [w1|f] eqn:Hex; simpl.
      * apply print_frame in Hex as [<- Hp]. apply IH. congruence.
      * now rewrite (print_fault _ _ _ _ Hex).
    + apply (IH (enable w) k Hk).
    + apply (IH (disable w) k Hk).
    + apply (IH w k Hk).
    + destruct (attention fmt va w) as [w1|f] eqn:Hex; simpl.
      * apply attention_frame in Hex as [<- Hp]. apply IH. congruence.
      * now rewrite (attention_fault _ _ _ _ Hex).
Qed.

(** ** Nesting *)

(** X6. No sequence of calls from process start ever ends in the
    [std::length_error] of [resize]: the subtraction [size() - 2] in
    [undent()] never wraps around. *)
Theorem size_minus_two_never_wraps (cs : list call) :
  run cs initial <> Fault LengthError.
Proof. apply run_no_length_error. now exists O. Qed.

(** X7. Calls of [indent()] made while logging is disabled are not
    recorded: however many there were, the first [undent()] after
    [enable()] finds an empty prefix and aborts. *)
Theorem disabled_indents_are_lost (n : nat) (w : world) :
  _enabled w = false -> indent_str w = "" ->
  run (repeat call_indent n ++ [call_enable; call_undent])%list w
  = Fault AssertionFailed.
Proof.
  intros Hd Hp. rewrite run_indents_disabled by assumption.
  simpl. unfold undent. simpl. now rewrite Hp.
Qed.

Lemma disabled_indents_are_lost_witness :
  run (repeat call_indent 3 ++ [call_enable; call_undent])%list initial
  = Fault AssertionFailed.
Proof.
  apply (disabled_indents_are_lost 3 initial); reflexivity.
Defined.

(** X8. In a reachable state with logging enabled, [indent()] undoes a
    returning [undent()]: the state is again what it was. *)
Theorem indent_undoes_undent (w w' : world) :
  reachable w -> _enabled w = true -> undent w = Ok w' -> indent w' = w.
Proof.
  intros Hr He Hu. destruct (reachable_tokens_only w Hr) as [k Hk].
  destruct k as [|k].
  - unfold undent in Hu. rewrite He, Hk in Hu. discriminate.
  - rewrite (undent_token w (tokens k)) in Hu
      by (auto; now rewrite Hk, tokens_snoc).
    injection Hu as <-. unfold indent. cbn [_enabled indent_str set_indent_str].
    rewrite He. unfold set_indent_str. cbn [_enabled indent_str stdout].
    rewrite tokens_snoc, <- Hk. apply world_eta.
Qed.

Lemma indent_undoes_undent_witness :
  undent (indent (indent (enable initial))) = Ok (indent (enable initial)) /\
  indent (indent (enable initial)) = indent (indent (enable initial)).
Proof.
  split; [reflexivity |].
  apply (indent_undoes_undent
           (indent (indent (enable initial))) (indent (enable initial))).
  - exists [call_enable; call_indent; call_indent]. reflexivity.
  - reflexivity.
  - reflexivity.
Defined.

(** X9. With logging enabled, a returning [undent()] removes exactly
    the last two characters of the prefix, whatever the prefix holds, and
    touches neither the flag nor standard output. *)
Theorem undent_drops_two_characters (w w' : world) :
  _enabled w = true -> undent w = Ok w' ->
  size (indent_str w') = size (indent_str w) - 2 /\
  prefix (indent_str w') (indent_str w) = true /\
  _enabled w' = true /\
  stdout w' = stdout w.
Proof.
  intros He Hu.
  assert (Hlen : 2 <= size (indent_str w)).
  { destruct w as [b [|a [|a' s]] out]; simpl in He; subst b.
    - discriminate.
    - vm_compute in Hu. discriminate.
    - unfold size. simpl String.length. lia. }
  unfold undent in Hu. rewrite He in Hu.
  destruct (assert (negb (empty (indent_str w)))); [| discriminate].
  cbn [bind] in Hu. unfold resize, size_t_sub in Hu.
  replace (2 <=? size (indent_str w)) with true in Hu
    by (symmetry; apply Z.leb_le; lia).
  replace (size (indent_str w) - 2 <=? size (indent_str w)) with true in Hu
    by (symmetry; apply Z.leb_le; lia).
  cbn [bind] in Hu. injection Hu as <-. cbn [indent_str set_indent_str].
  assert (Hsub : String.length
                   (substring 0 (Z.to_nat (size (indent_str w) - 2)) (indent_str w))
                 = Z.to_nat (size (indent_str w) - 2)).
  { apply length_substring_0. unfold size in *. lia. }
  split; [unfold size in *; rewrite Hsub; lia |].
  split; [| split; [exact He | reflexivity]].
  apply prefix_correct. now rewrite Hsub.
Qed.

Lemma undent_drops_two_characters_witness :
  size (indent_str {| _enabled := true; indent_str := "a"; stdout := "" |})
  = size (indent_str {| _enabled := true; indent_str := "abc"; stdout := "" |}) - 2 /\
  prefix (indent_str {| _enabled := true; indent_str := "a"; stdout := "" |})
         (indent_str {| _enabled := true; indent_str := "abc"; stdout := "" |}) = true /\
  _enabled {| _enabled := true; indent_str := "a"; stdout := "" |} = true /\
  stdout {| _enabled := true; indent_str := "a"; stdout := "" |}
  = stdout {| _enabled := true; indent_str := "abc"; stdout := "" |}.
Proof.
  apply (undent_drops_two_characters
           {| _enabled := true; indent_str := "abc"; stdout := "" |}
           {| _enabled := true; indent_str := "a"; stdout := "" |});
    reflexivity.
Defined.

(** X10. The prefix counts the nesting entered while logging was
    enabled.  A sequence of calls from process start that returns leaves
    the flag and as many tokens as the flag-and-counter model computes;
    one that aborts on the assertion is one where the counter has no
    successor; and where the counter has none, the sequence does not
    return. *)
Theorem prefix_counts_enabled_nesting (cs : list call) :
  (forall w, run cs initial = Ok w ->
     exists k, nesting cs false 0 = Some (enabled w, k) /\
               indent_str w = tokens k) /\
  (run cs initial = Fault AssertionFailed -> nesting cs false 0 = None) /\
  (nesting cs false 0 = None -> exists f, run cs initial = Fault f).
Proof.
  pose proof (run_nesting cs initial 0 eq_refl) as H. simpl in H.
  split; [| split].
  - intros w Hw. now rewrite Hw in H.
  - intros Hf. now rewrite Hf in H.
  - intros Hn. destruct (run cs initial) as [w|f]; [| now exists f].
    destruct H as (k & Hk & _). congruence.
Qed.

Lemma prefix_counts_enabled_nesting_witness :
  (exists k,
     nesting [call_indent; call_enable; call_indent; call_disable; call_undent]
       false 0
     = Some (enabled (disable (indent (enable initial))), k) /\
     indent_str (disable (indent (enable initial))) = tokens k) /\
  (exists f, run [call_enable; call_indent; call_undent; call_undent] initial
             = Fault f).
Proof.
  split.
  - apply (proj1 (prefix_counts_enabled_nesting
                    [call_indent; call_enable; call_indent; call_disable;
                     call_undent])).
    reflexivity.
  - apply (proj2 (proj2 (prefix_counts_enabled_nesting
                           [call_enable; call_indent; call_undent; call_undent]))).
    reflexivity.
Defined.

(** X11. A line logged inside well-nested scopes starts with one token
    per scope still open: after [enable()] and an indent/undent sequence
    that leaves [k] calls of [indent()] unmatched, [println] writes [k]
    tokens, the message and a line feed. *)
Theorem println_at_depth
    (cs : list call) (k : nat) (fmt : string) (va : va_list) (msg : string) :
  unmatched cs 0 = Some k -> vformat fmt va = Some msg ->
  run (call_enable :: cs ++ [call_println fmt va])%list initial
  = Ok {| _enabled := true; indent_str := tokens k;
          stdout := tokens k ++ msg ++ LF |}.
Proof.
  intros Hu Hm. simpl. rewrite run_app.
  rewrite (run_unmatched cs 0 k "" (enable initial)) by auto.
  simpl.
  rewrite (println_writes fmt va msg k) by auto.
  reflexivity.
Qed.

Lemma println_at_depth_witness :
  run (call_enable :: [call_indent; call_indent; call_undent; call_indent]
         ++ [call_println "n=%d" [va_int 3]])%list initial
  = Ok {| _enabled := true; indent_str := tokens 2;
          stdout := tokens 2 ++ "n=3" ++ LF |}.
Proof.
  apply (println_at_depth [call_indent; call_indent; call_undent; call_indent]
           2 "n=%d" [va_int 3] "n=3"); reflexivity.
Defined.

(** ** The stream accessor *)

(** X12. With logging enabled, [cout() << t1 << ... << tn] writes the
    indent prefix once and then the texts, with no line feed of its own;
    every further [cout()] writes the prefix again. *)
Theorem cout_writes_prefix_per_call (w : world) (texts texts' : list string) :
  _enabled w = true ->
  run [call_cout texts] w
    = Ok (write_stdout (indent_str w ++ joined texts) w) /\
  run [call_cout texts; call_cout texts'] w
    = Ok (write_stdout (indent_str w ++ joined texts
                          ++ indent_str w ++ joined texts') w).
Proof.
  intros He. simpl. unfold cout. rewrite He. simpl.
  rewrite !inserts_std_cout, !write_stdout_twice.
  split; [reflexivity |].
  simpl. rewrite He. simpl.
  rewrite !inserts_std_cout, !write_stdout_twice.
  now rewrite !append_assoc.
Qed.

Lemma cout_writes_prefix_per_call_witness :
  run [call_cout ["a"; "b"]] (indent (enable initial))
    = Ok (write_stdout "* ab" (indent (enable initial))) /\
  run [call_cout ["a"; "b"]; call_cout ["c"]] (indent (enable initial))
    = Ok (write_stdout "* ab* c" (indent (enable initial))).
Proof.
  apply (cout_writes_prefix_per_call (indent (enable initial)) ["a"; "b"] ["c"]).
  reflexivity.
Defined.

(** X13. The handle [cout()] returns stays what it was when the switch
    is turned afterwards: one obtained while disabled still drops every
    write after [enable()], one obtained while enabled still writes to
    standard output after [disable()]. *)
Theorem cout_handle_outlives_toggle (w : world) (texts : list string) :
  (_enabled w = false ->
   inserts (fst (cout w)) texts (enable (snd (cout w))) = enable w) /\
  (_enabled w = true ->
   inserts (fst (cout w)) texts (disable (snd (cout w)))
   = write_stdout (indent_str w ++ joined texts) (disable w)).
Proof.
  unfold cout. split; intros ->; simpl.
  - apply inserts_null_out.
  - rewrite inserts_std_cout. unfold write_stdout, disable, set_enabled. simpl.
    now rewrite append_assoc.
Qed.

Lemma cout_handle_outlives_toggle_witness :
  inserts (fst (cout initial)) ["a"; "b"] (enable (snd (cout initial)))
    = enable initial /\
  inserts (fst (cout (enable initial))) ["a"; "b"]
          (disable (snd (cout (enable initial))))
    = write_stdout "ab" (disable (enable initial)).
Proof.
  split.
  - apply (proj1 (cout_handle_outlives_toggle initial ["a"; "b"])). reflexivity.
  - apply (proj2 (cout_handle_outlives_toggle (enable initial) ["a"; "b"])).
    reflexivity.
Defined.

(** ** Frames *)

(** X14. Each call changes only its own part of the state: the flag
    changes under [enable()]/[disable()] alone, the prefix under
    [indent()]/[undent()] alone, standard output under [cout], [print],
    [println] and [attention] alone. *)
Theorem calls_change_their_own_part (c : call) (w w' : world) :
  exec c w = Ok w' ->
  (is_toggle c = false -> _enabled w' = _enabled w) /\
  (is_nesting c = false -> indent_str w' = indent_str w) /\
  (is_output c = false -> stdout w' = stdout w).
Proof.
  intros Hex. split; [| split].
  - intros Ht. rewrite (exec_flag c w w' Hex). now destruct c.
  - now apply exec_prefix_frame.
  - now apply exec_stdout_frame.
Qed.

Lemma calls_change_their_own_part_witness :
  (is_toggle (call_println "a" []) = false ->
   _enabled (write_stdout ("* a" ++ LF) (indent (enable initial)))
   = _enabled (indent (enable initial))) /\
  (is_nesting (call_println "a" []) = false ->
   indent_str (write_stdout ("* a" ++ LF) (indent (enable initial)))
   = indent_str (indent (enable initial))) /\
  (is_output (call_println "a" []) = false ->
   stdout (write_stdout ("* a" ++ LF) (indent (enable initial)))
   = stdout (indent (enable initial))).
Proof.
  apply (calls_change_their_own_part (call_println "a" [])
           (indent (enable initial))
           (write_stdout ("* a" ++ LF) (indent (enable initial)))).
  reflexivity.
Defined.

(** X15. A message without directive is written as it is, whatever
    arguments come with it: [attention] writes the banner, the message
    and a line feed in every state, [println] the prefix, the message and
    a line feed in every reachable state with logging enabled. *)
Theorem plain_message_verbatim (w : world) (fmt : string) (va : va_list) :
  plain fmt = true ->
  attention fmt va w = Ok (write_stdout ("***ATTENTION*** " ++ fmt ++ LF) w) /\
  (reachable w -> _enabled w = true ->
   println fmt va w = Ok (write_stdout (indent_str w ++ fmt ++ LF) w)).
Proof.
  intros Hp. pose proof (vformat_plain fmt va Hp) as Hm. split.
  - now apply attention_writes.
  - intros Hr He. destruct (reachable_tokens_only w Hr) as [k Hk].
    rewrite Hk. now apply println_writes.
Qed.

Lemma plain_message_verbatim_witness :
  attention "disk full" [va_int 1] initial
    = Ok (write_stdout ("***ATTENTION*** " ++ "disk full" ++ LF) initial) /\
  println "done" [va_str "x"] (indent (enable initial))
    = Ok (write_stdout ("* " ++ "done" ++ LF) (indent (enable initial))).
Proof.
  split.
  - apply (proj1 (plain_message_verbatim initial "disk full" [va_int 1] eq_refl)).
  - apply (proj2 (plain_message_verbatim (indent (enable initial))
                    "done" [va_str "x"] eq_refl)).
    + exists [call_enable; call_indent]. reflexivity.
    + reflexivity.
Defined.
